(** * simplx: the Linux platform layer and the actor core

    A shallow embedding of [include/trz/engine/internal/linux/platform_gcc.h]
    (the OS wrappers: clock, aligned allocation, mutexes, condition
    variables) and of the actor core the build configuration lists
    ([actor.cpp], [engine.cpp], [node.cpp], [RefMapper.cpp]), followed by
    the properties the specification states about them.

    Conventions.
    - C integers are [Z]; [int64_t], [long] and [time_t] are 64-bit two's
      complement (x86-64 Linux, LP64) and their wrap-around is written out
      with [int64].
    - A wrapper runs in the monad [M]: it threads the state of the operating
      system ([World]) and either returns or throws.
    - The C library, the errno constants of [<cerrno>], [systemErrorToString]
      (defined in [platform_gcc.cpp]) and the members of [time.h] the header
      calls are the fields of the class [Platform]; the wrappers are defined
      for any such platform.
    - The sources of the actor core are not available; its operations are
      modelled from the specification, and each such definition says so. *)

From Stdlib Require Import ZArith String List Bool Lia.
From stdpp Require Import base option gmap strings list.

Local Open Scope Z_scope.

(* ===================================================================== *)
(** * Platform layer: [platform_gcc.h]                                    *)
(* ===================================================================== *)

Module Platform.

(** ** Exceptions and outcomes *)

(** [RunTimeException(__FILE__, __LINE__)] and
    [RunTimeException(__FILE__, __LINE__, systemErrorToString(cc))]: the
    third argument is present or absent at the throw site. *)
Inductive exception : Type :=
| RunTimeException (file : string) (line : Z) (message : option string)
| bad_alloc.

Inductive outcome (A : Type) : Type :=
| Return (a : A)
| Throw (e : exception).
Arguments Return {A} a.
Arguments Throw {A} e.

(** The text an exception carries, if its throw site passed one. *)
Definition error_text (e : exception) : option string :=
  match e with
  | RunTimeException _ _ message => message
  | bad_alloc => None
  end.

(** ** Machine integers *)

Definition int64 (z : Z) : Z := (z + 2 ^ 63) mod 2 ^ 64 - 2 ^ 63.

Definition int64_range (z : Z) : Prop := - 2 ^ 63 <= z < 2 ^ 63.

(** [struct timespec] *)
Record timespec : Type := { tv_sec : Z; tv_nsec : Z }.

(** [struct timeval] *)
Record timeval : Type := { tvl_sec : Z; tv_usec : Z }.

Definition uint32 (z : Z) : Z := z mod 2 ^ 32.

(** [Time(int64_t nanoseconds)], as [HighResolutionTime] constructs it. *)
Record Time : Type := { nanoseconds : Z }.

Inductive clockid : Type := CLOCK_REALTIME | CLOCK_MONOTONIC.

Definition FILE_ : string := "trz/engine/internal/linux/platform_gcc.h".

(** ** What the header takes from the OS and from headers outside it *)

Class Platform : Type := {
  World : Type;
  mutex_t : Type;
  signal_t : Type;
  pointer : Type;
  (* <cerrno> *)
  EBUSY : Z;
  ENOMEM : Z;
  ETIMEDOUT : Z;
  (* platform_gcc.cpp *)
  systemErrorToString : Z -> string;
  (* time.h *)
  extractSeconds : Time -> Z;
  extractNanoseconds : Time -> Z;
  DateTime : Z -> Z -> Time;
  (* the C library: return code (and out-parameter), next state *)
  clock_gettime : clockid -> World -> (Z * timespec) * World;
  gettimeofday : World -> (Z * timeval) * World;
  posix_memalign : Z -> Z -> World -> (Z * pointer) * World;
  pthread_mutex_destroy : mutex_t -> World -> Z * World;
  pthread_mutex_lock : mutex_t -> World -> Z * World;
  pthread_mutex_trylock : mutex_t -> World -> Z * World;
  pthread_mutex_unlock : mutex_t -> World -> Z * World;
  pthread_cond_init : World -> (Z * signal_t) * World;
  pthread_cond_destroy : signal_t -> World -> Z * World;
  pthread_cond_wait : signal_t -> mutex_t -> World -> Z * World;
  pthread_cond_timedwait : signal_t -> mutex_t -> timespec -> World -> Z * World;
  pthread_cond_signal : signal_t -> World -> Z * World;
}.

Section Wrappers.
Context `{P : Platform}.

(** ** The monad of the wrappers *)

Definition M (A : Type) : Type := World -> outcome A * World.

#[export] Instance M_ret : MRet M := fun A a w => (Return a, w).

#[export] Instance M_bind : MBind M := fun A B f m w =>
  match m w with
  | (Return a, w') => f a w'
  | (Throw e, w') => (Throw e, w')
  end.

Definition throw {A} (e : exception) : M A := fun w => (Throw e, w).

(** A call into the C library never throws. *)
Definition call {A} (f : World -> A * World) : M A :=
  fun w => let '(a, w') := f w in (Return a, w').

(** ** [HighResolutionTime::operator()] *)

Definition HighResolutionTime : M Time :=
  '(cc, t) ← call (clock_gettime CLOCK_MONOTONIC);
  if negb (cc =? 0) then throw (RunTimeException FILE_ 93 None)
  else mret {| nanoseconds :=
                 int64 (int64 (int64 (tv_sec t) * int64 1000000000)
                        + int64 (tv_nsec t)) |}.

(** ** [timeGetEpoch]: the return code of [gettimeofday] is not looked at *)

Definition timeGetEpoch : M Time :=
  '(_, now) ← call gettimeofday;
  mret (DateTime (tvl_sec now) (Z.quot (uint32 (tv_usec now)) 1000)).

(** ** [alignMalloc] *)

Definition alignMalloc (alignement size : Z) : M pointer :=
  '(cc, ret) ← call (posix_memalign alignement size);
  if negb (cc =? 0) then
    if negb (cc =? ENOMEM) then throw (RunTimeException FILE_ 152 None)
    else throw bad_alloc
  else mret ret.

(** ** Mutexes *)

Definition mutexDestroy (handle : mutex_t) : M unit :=
  cc ← call (pthread_mutex_destroy handle);
  if negb (cc =? 0)
  then throw (RunTimeException FILE_ 206 (Some (systemErrorToString cc)))
  else mret tt.

Definition mutexLock (handle : mutex_t) : M unit :=
  cc ← call (pthread_mutex_lock handle);
  if negb (cc =? 0)
  then throw (RunTimeException FILE_ 215 (Some (systemErrorToString cc)))
  else mret tt.

Definition mutexTryLock (handle : mutex_t) : M bool :=
  cc ← call (pthread_mutex_trylock handle);
  let success := cc =? 0 in
  if success || (cc =? EBUSY) then mret success
  else throw (RunTimeException FILE_ 229 (Some (systemErrorToString cc))).

Definition mutexUnlock (handle : mutex_t) : M unit :=
  cc ← call (pthread_mutex_unlock handle);
  if negb (cc =? 0)
  then throw (RunTimeException FILE_ 238 (Some (systemErrorToString cc)))
  else mret tt.

(** ** Condition variables *)

Definition mutexSignalCreate : M signal_t :=
  '(cc, ret) ← call pthread_cond_init;
  if negb (cc =? 0) then throw (RunTimeException FILE_ 247 None)
  else mret ret.

Definition mutexSignalDestroy (handle : signal_t) : M unit :=
  cc ← call (pthread_cond_destroy handle);
  if negb (cc =? 0) then throw (RunTimeException FILE_ 256 None)
  else mret tt.

Definition mutexSignalWait (signal : signal_t) (lockedMutex : mutex_t) : M unit :=
  cc ← call (pthread_cond_wait signal lockedMutex);
  if negb (cc =? 0) then throw (RunTimeException FILE_ 264 None)
  else mret tt.

(** Lines 270-273: the [timespec] handed to [pthread_cond_timedwait]. *)
Definition mutexSignalWait_tout (pTimeOut currentEpochTime : Time) : timespec :=
  let tv_nsec0 :=
    int64 (extractNanoseconds pTimeOut + extractNanoseconds currentEpochTime) in
  let tv_sec0 :=
    int64 (extractSeconds pTimeOut + extractSeconds currentEpochTime
           + Z.quot tv_nsec0 1000000000) in
  {| tv_sec := tv_sec0; tv_nsec := Z.rem tv_nsec0 1000000000 |}.

Definition mutexSignalWait_timed (signal : signal_t) (lockedMutex : mutex_t)
    (pTimeOut currentEpochTime : Time) : M unit :=
  let tout := mutexSignalWait_tout pTimeOut currentEpochTime in
  cc ← call (pthread_cond_timedwait signal lockedMutex tout);
  if negb (cc =? 0) && negb (cc =? ETIMEDOUT)
  then throw (RunTimeException FILE_ 277 None)
  else mret tt.

(** The same overload called with three arguments: the default argument
    [timeGetEpoch()] of the declaration is evaluated at the call. *)
Definition mutexSignalWait_default_epoch (signal : signal_t)
    (lockedMutex : mutex_t) (pTimeOut : Time) : M unit :=
  currentEpochTime ← timeGetEpoch;
  mutexSignalWait_timed signal lockedMutex pTimeOut currentEpochTime.

Definition mutexSignalNotify (handle : signal_t) : M unit :=
  cc ← call (pthread_cond_signal handle);
  if negb (cc =? 0) then throw (RunTimeException FILE_ 285 None)
  else mret tt.

End Wrappers.

(** ** Readings of the clock and of [Time] *)

(** The nanosecond count a [timespec] stands for. *)
Definition timestamp (t : timespec) : Z := tv_sec t * 1000000000 + tv_nsec t.

(** A [timespec] as the C library gives and expects it. *)
Definition normalized (t : timespec) : Prop := 0 <= tv_nsec t < 1000000000.

(** Order of two readings: seconds first, then nanoseconds. *)
Definition timespec_le (t1 t2 : timespec) : Prop :=
  tv_sec t1 < tv_sec t2 \/ (tv_sec t1 = tv_sec t2 /\ tv_nsec t1 <= tv_nsec t2).

(** [time.h] is outside the header: all that is used of it is that the two
    extractors split the 64-bit nanosecond count of a [Time] into whole
    seconds and the nanoseconds left over. *)
Definition well_formed_Time `{Platform} (t : Time) : Prop :=
  int64_range (nanoseconds t) /\
  nanoseconds t = extractSeconds t * 1000000000 + extractNanoseconds t.

End Platform.

(* ===================================================================== *)
(** * Actor core: registry, actor, worker, engine                         *)
(* ===================================================================== *)

Module Core.

Definition ActorId : Type := positive.
Definition WorkerId : Type := nat.
Definition ThreadId : Type := nat.

(** ** Reference Registry *)

(** Modelled from the spec: [RefMapper.cpp] is not part of the available
    sources.  A registry entry is the tuple (ActorId, owning-Worker identity,
    liveness flag); the id is the key of the single shared table. *)
Record Entry : Type := { owner : WorkerId; live : bool }.

Abbreviation Registry := (gmap ActorId Entry).

(** Modelled from the spec: [RefMapper.cpp] is missing.  [register]
    allocates a fresh id, inserts a live entry and returns the id. *)
Definition register (w : WorkerId) (r : Registry) : ActorId * Registry :=
  let id := fresh (dom r) in
  (id, <[id := {| owner := w; live := true |}]> r).

(** Modelled from the spec: [RefMapper.cpp] is missing.  The two results of
    [resolve]. *)
Inductive Resolution : Type :=
| LiveHandle (id : ActorId) (w : WorkerId)
| NotFound.

(** Modelled from the spec: [RefMapper.cpp] is missing.  [resolve] looks up
    the entry; a live entry gives a handle, a missing entry or a cleared
    liveness flag gives NotFound. *)
Definition resolve (id : ActorId) (r : Registry) : Resolution :=
  match r !! id with
  | Some e => if live e then LiveHandle id (owner e) else NotFound
  | None => NotFound
  end.

(** Modelled from the spec: [RefMapper.cpp] is missing.  [invalidate] clears
    the liveness flag of the entry. *)
Definition invalidate (id : ActorId) (r : Registry) : Registry :=
  alter (fun e => {| owner := owner e; live := false |}) id r.

(** Modelled from the spec: [RefMapper.cpp] is missing.  An entry whose
    liveness flag has been cleared. *)
Definition dead (id : ActorId) (r : Registry) : Prop :=
  exists e, r !! id = Some e /\ live e = false.

(** Modelled from the spec: the registry is guarded by one exclusion
    mechanism, so the calls of all threads take effect one at a time; an
    execution is the sequence in which they went through the guard, each
    tagged with the calling thread. *)
Inductive RegistryOp : Type :=
| Register (t : ThreadId) (w : WorkerId)
| Resolve (t : ThreadId) (id : ActorId)
| Invalidate (t : ThreadId) (id : ActorId).

(** Modelled from the spec: [RefMapper.cpp] is missing.  The effect of one
    call on the shared table. *)
Definition registry_step (r : Registry) (op : RegistryOp) : Registry :=
  match op with
  | Register _ w => (register w r).2
  | Resolve _ _ => r
  | Invalidate _ id => invalidate id r
  end.

(** Modelled from the spec: [RefMapper.cpp] is missing.  The table after a
    sequence of calls. *)
Definition registry_run (ops : list RegistryOp) (r : Registry) : Registry :=
  foldl registry_step r ops.

(** ** Actor *)

Section Actor.
Context {Event State : Type}.

(** The handler of an event: the new private state, and whether the actor
    requested its own destruction while handling it. *)
Variable handler : Event -> State -> State * bool.

(** Modelled from the spec: [actor.cpp] is missing.  An actor owns private
    state and a mailbox, the ordered sequence of pending events; [handled]
    records, oldest first, the events whose handler has run. *)
Record Actor : Type := {
  state : State;
  mailbox : list Event;
  accepting : bool;
  handled : list Event;
}.

(** Modelled from the spec: [actor.cpp] is missing.  [deliver] appends to the
    mailbox if the actor is still accepting events, otherwise is a no-op. *)
Definition deliver (a : Actor) (e : Event) : Actor :=
  if accepting a
  then {| state := state a; mailbox := mailbox a ++ [e];
          accepting := true; handled := handled a |}
  else a.

(** Modelled from the spec: [actor.cpp] is missing.  [processOne] executes
    exactly one pending event's handler and returns whether more events
    remain; an actor that requested destruction stops accepting events. *)
Definition processOne (a : Actor) : Actor * bool :=
  match mailbox a with
  | [] => (a, false)
  | e :: rest =>
      let '(s, destroy) := handler e (state a) in
      ({| state := s; mailbox := rest;
          accepting := accepting a && negb destroy;
          handled := handled a ++ [e] |},
       match rest with [] => false | _ :: _ => true end)
  end.

(** Modelled from the spec: the worker's run loop ([node.cpp]) is missing.
    Repeated calls to [processOne], until it reports that no event remains. *)
Fixpoint drain (fuel : nat) (a : Actor) : Actor :=
  match fuel with
  | O => a
  | S n => let '(a', more) := processOne a in
           if more then drain n a' else a'
  end.

(** Modelled from the spec: [node.cpp] is missing.  What a worker does with
    one of its actors: deliver an event to it, or have it process one. *)
Inductive ActorOp : Type :=
| Deliver (e : Event)
| ProcessOne.

Definition actor_step (a : Actor) (op : ActorOp) : Actor :=
  match op with
  | Deliver e => deliver a e
  | ProcessOne => (processOne a).1
  end.

Definition actor_run (ops : list ActorOp) (a : Actor) : Actor :=
  foldl actor_step a ops.

(** The events a schedule enqueues, in order: those delivered while the
    actor is accepting events. *)
Fixpoint enqueued (a : Actor) (ops : list ActorOp) : list Event :=
  match ops with
  | [] => []
  | op :: ops' =>
      match op with
      | Deliver e => if accepting a then [e] else []
      | ProcessOne => []
      end ++ enqueued (actor_step a op) ops'
  end.

(** The private state after the handlers of [es] ran in that order. *)
Definition handle_all (s : State) (es : list Event) : State :=
  foldl (fun s e => (handler e s).1) s es.

(** ** Worker *)

(** Modelled from the spec: [node.cpp] is missing.  The states of a worker. *)
Inductive WorkerState : Type := Idle | Running | Draining | Stopped.

#[export] Instance WorkerState_eq_dec : EqDecision WorkerState.
Proof. solve_decision. Defined.

(** Modelled from the spec: [node.cpp] is missing.  A worker owns its actors;
    [wlog] records the events it executed, per actor. *)
Record Worker : Type := {
  wstate : WorkerState;
  owned : list (ActorId * Actor);
  wlog : list (ActorId * Event);
}.

(** Modelled from the spec: [node.cpp] is missing.  Transition
    Running/Idle -> Draining on the shutdown signal from the engine. *)
Definition signal_shutdown (w : Worker) : Worker :=
  match wstate w with
  | Idle | Running =>
      {| wstate := Draining; owned := owned w; wlog := wlog w |}
  | Draining | Stopped => w
  end.

(** Modelled from the spec: [actor.cpp] and [node.cpp] are missing.
    Destruction sequencing: the actor stops accepting new events, finishes
    the events already enqueued, then its owning worker calls [invalidate]
    on the registry, then releases its memory. *)
Definition destroy_actor (st : list (ActorId * Event) * Registry)
    (ia : ActorId * Actor) : list (ActorId * Event) * Registry :=
  let '(id, a) := ia in
  let closed := {| state := state a; mailbox := mailbox a;
                   accepting := false; handled := [] |} in
  let drained := drain (length (mailbox closed)) closed in
  (st.1 ++ map (pair id) (handled drained), invalidate id st.2).

(** Modelled from the spec: [node.cpp] and [engine.cpp] are missing.
    Transition Draining -> Stopped once all owned actors have been destroyed
    and the run loop exits; joining a stopped worker returns at once, joining
    a worker that was never signalled does not return. *)
Definition join (w : Worker) (r : Registry) : option (Worker * Registry) :=
  match wstate w with
  | Draining =>
      let '(log, r') := foldl destroy_actor (wlog w, r) (owned w) in
      Some ({| wstate := Stopped; owned := []; wlog := log |}, r')
  | Stopped => Some (w, r)
  | Idle | Running => None
  end.

(** ** Engine *)

(** Modelled from the spec: [engine.cpp] is missing.  The engine owns the
    full set of workers and the registry. *)
Record Engine : Type := {
  workers : list Worker;
  registry : Registry;
}.

(** Modelled from the spec: [engine.cpp] is missing.  The first step of
    [stop]: every worker is signalled. *)
Definition signal_all (e : Engine) : Engine :=
  {| workers := map signal_shutdown (workers e); registry := registry e |}.

(** Modelled from the spec: [engine.cpp] is missing.  The second step of
    [stop]: the workers are joined one after the other. *)
Fixpoint join_workers (ws : list Worker) (r : Registry)
    : option (list Worker * Registry) :=
  match ws with
  | [] => Some ([], r)
  | w :: ws' =>
      match join w r with
      | Some (w', r') =>
          match join_workers ws' r' with
          | Some (ws'', r'') => Some (w' :: ws'', r'')
          | None => None
          end
      | None => None
      end
  end.

(** Modelled from the spec: [engine.cpp] is missing.  The engine once every
    worker has been joined, if the joins return. *)
Definition join_all (e : Engine) : option Engine :=
  match join_workers (workers e) (registry e) with
  | Some (ws, r) => Some {| workers := ws; registry := r |}
  | None => None
  end.

(** Modelled from the spec: [engine.cpp] is missing.  The last step of
    [stop]: the registry is destroyed and holds no entry. *)
Definition destroy_registry (e : Engine) : Engine :=
  {| workers := workers e; registry := ∅ |}.

(** Modelled from the spec: [engine.cpp] is missing.  [stop] signals every
    worker to enter Draining, joins every worker, then destroys the
    registry. *)
Definition stop (e : Engine) : option Engine :=
  match join_all (signal_all e) with
  | Some e' => Some (destroy_registry e')
  | None => None
  end.

(** Every actor an engine's workers own. *)
Definition actors_of (e : Engine) : list ActorId :=
  concat (map (fun w => map fst (owned w)) (workers e)).

(** A stopped worker has destroyed all its actors. *)
Definition stopped_owns_nothing (e : Engine) : Prop :=
  Forall (fun w => wstate w = Stopped -> owned w = []) (workers e).

End Actor.

End Core.

(* ===================================================================== *)
(** * A scripted operating system                                         *)
(* ===================================================================== *)

(** A concrete [Platform] on which the wrappers run: the world holds the
    return codes the coming library calls will give, in order, and the
    reading of the monotonic clock.  The errno values are those of Linux;
    [extractSeconds] and [extractNanoseconds] split a [Time] by C++ division
    and remainder. *)
Module Scripted.
Import Platform.

Record world : Type := { codes : list Z; clock : timespec }.

Definition next {A} (out : A) (w : world) : (Z * A) * world :=
  match codes w with
  | [] => ((0, out), w)
  | cc :: rest => ((cc, out), {| codes := rest; clock := clock w |})
  end.

Definition next_code (w : world) : Z * world :=
  let '((cc, _), w') := next tt w in (cc, w').

Definition strerror (cc : Z) : string :=
  if cc =? 12 then "Cannot allocate memory"
  else if cc =? 16 then "Device or resource busy"
  else if cc =? 22 then "Invalid argument"
  else if cc =? 110 then "Connection timed out"
  else "Unknown error".

#[export] Instance linux : Platform := {|
  World := world;
  mutex_t := nat;
  signal_t := nat;
  pointer := Z;
  EBUSY := 16;
  ENOMEM := 12;
  ETIMEDOUT := 110;
  systemErrorToString := strerror;
  extractSeconds t := Z.quot (nanoseconds t) 1000000000;
  extractNanoseconds t := Z.rem (nanoseconds t) 1000000000;
  DateTime sec msec := {| nanoseconds := sec * 1000000000 + msec * 1000000 |};
  clock_gettime _ w := next (clock w) w;
  gettimeofday w :=
    next {| tvl_sec := 1700000000 + tv_sec (clock w);
            tv_usec := Z.quot (tv_nsec (clock w)) 1000 |} w;
  posix_memalign alignement size w := next (alignement * 4096) w;
  pthread_mutex_destroy _ := next_code;
  pthread_mutex_lock _ := next_code;
  pthread_mutex_trylock _ := next_code;
  pthread_mutex_unlock _ := next_code;
  pthread_cond_init := next 1%nat;
  pthread_cond_destroy _ := next_code;
  pthread_cond_wait _ _ := next_code;
  pthread_cond_timedwait _ _ _ := next_code;
  pthread_cond_signal _ := next_code;
|}.

(** A world whose next call returns [cc]. *)
Definition returning (cc : Z) : world :=
  {| codes := [cc]; clock := {| tv_sec := 5; tv_nsec := 250 |} |}.

Definition spent : world :=
  {| codes := []; clock := {| tv_sec := 5; tv_nsec := 250 |} |}.

(** An actor whose private state is the decimal number made of the events
    it handled; handling event 0 requests the actor's destruction. *)
Definition digits (e : nat) (s : nat) : nat * bool :=
  ((10 * s + e)%nat, Nat.eqb e 0).

Definition fresh_actor : @Core.Actor nat nat :=
  {| Core.state := 0%nat; Core.mailbox := []; Core.accepting := true;
     Core.handled := [] |}.

(** A registry in which workers 0 and 1 registered one actor each. *)
Definition registry0 : Core.Registry := (Core.register 0%nat ∅).2.
Definition actor0 : Core.ActorId := (Core.register 0%nat ∅).1.
Definition registry1 : Core.Registry := (Core.register 1%nat registry0).2.
Definition actor1 : Core.ActorId := (Core.register 1%nat registry0).1.

(** An engine with a running worker that owns [actor0], which has two
    pending events, and an idle worker that owns [actor1]. *)
Definition engine0 : @Core.Engine nat nat :=
  {| Core.workers :=
       [ {| Core.wstate := Core.Running;
            Core.owned := [(actor0, Core.deliver (Core.deliver fresh_actor 4%nat) 2%nat)];
            Core.wlog := [] |};
         {| Core.wstate := Core.Idle;
            Core.owned := [(actor1, fresh_actor)];
            Core.wlog := [] |} ];
     Core.registry := registry1 |}.

End Scripted.

(* ===================================================================== *)
(** * Platform layer: the rest of [platform_gcc.h]                        *)
(* ===================================================================== *)

Module PlatformRest.
Import Platform.

(** ** The integer types the atomic templates are instantiated at *)

Record int_type : Type := { bits : Z; signed : bool }.

Definition int8_t : int_type := {| bits := 8; signed := true |}.
Definition uint8_t : int_type := {| bits := 8; signed := false |}.
Definition int32_t : int_type := {| bits := 32; signed := true |}.
Definition uint32_t : int_type := {| bits := 32; signed := false |}.
Definition int64_t : int_type := {| bits := 64; signed := true |}.
Definition uint64_t : int_type := {| bits := 64; signed := false |}.

(** Conversion to [_Type]: the value modulo [2 ^ bits], in the type's range. *)
Definition cast (T : int_type) (z : Z) : Z :=
  if signed T
  then (z + 2 ^ (bits T - 1)) mod 2 ^ bits T - 2 ^ (bits T - 1)
  else z mod 2 ^ bits T.

Definition fits (T : int_type) (z : Z) : Prop :=
  if signed T
  then - 2 ^ (bits T - 1) <= z < 2 ^ (bits T - 1)
  else 0 <= z < 2 ^ bits T.

Definition uint64 (z : Z) : Z := z mod 2 ^ 64.

(** ** Atomics *)

(** The objects [_Type *ptr] may point to: address to value.  A pointer to
    no object gives no result. *)
Abbreviation memory := (gmap Z Z).

(** [__sync_bool_compare_and_swap(ptr, oldval, newval)]: if the current
    value of [*ptr] is [oldval], write [newval] and return true. *)
Definition atomicCompareAndSwap (T : int_type) (ptr oldval newval : Z)
    (mem : memory) : option (bool * memory) :=
  match mem !! ptr with
  | Some current =>
      if current =? cast T oldval
      then Some (true, <[ptr := cast T newval]> mem)
      else Some (false, mem)
  | None => None
  end.

(** [__sync_add_and_fetch(ptr, (_Type)delta)] with [unsigned delta]:
    [*ptr += value; return *ptr]. *)
Definition atomicAddAndFetch (T : int_type) (ptr delta : Z)
    (mem : memory) : option (Z * memory) :=
  match mem !! ptr with
  | Some current =>
      let value := cast T (uint32 delta) in
      let updated := cast T (current + value) in
      Some (updated, <[ptr := updated]> mem)
  | None => None
  end.

(** [__sync_sub_and_fetch(ptr, (_Type)delta)] with [unsigned delta]:
    [*ptr -= value; return *ptr]. *)
Definition atomicSubAndFetch (T : int_type) (ptr delta : Z)
    (mem : memory) : option (Z * memory) :=
  match mem !! ptr with
  | Some current =>
      let value := cast T (uint32 delta) in
      let updated := cast T (current - value) in
      Some (updated, <[ptr := updated]> mem)
  | None => None
  end.

(** ** The remaining calls into the system *)

(** The three bodies of [getTSC], chosen by the preprocessor. *)
Inductive target : Type := i386 | amd64 | other_target.

Class System `{P : Platform} : Type := {
  thread_t : Type;
  tls_t : Type;
  getpid : World -> Z * World;
  getpagesize : World -> Z * World;
  free : pointer -> World -> unit * World;
  sched_yield : World -> Z * World;
  pthread_self : World -> thread_t * World;
  pthread_equal : thread_t -> thread_t -> Z;
  pthread_getspecific : tls_t -> World -> pointer * World;
  pthread_setspecific : tls_t -> pointer -> World -> Z * World;
  (* [rdtsc]: the registers EAX and EDX *)
  rdtsc : World -> (Z * Z) * World;
  (* [mrc p15, 0, %0, c9, c13, 0]: the cycle count register *)
  mrc_cycle_count : World -> Z * World;
}.

Section Wrappers.
Context `{S : System}.

Definition getPID : M Z := call getpid.

Definition systemPageSize : M Z := call getpagesize.

Definition alignFree (_ : Z) (p : pointer) : M unit := call (free p).

(** ** [getTSC] *)

Definition getTSC (t : target) : M Z :=
  match t with
  | i386 =>
      (* "=A"(x): the 64-bit [x] receives EDX:EAX *)
      '(eax, edx) ← call rdtsc;
      mret (uint64 (uint32 edx * 2 ^ 32 + uint32 eax))
  | amd64 =>
      '(a, d) ← call rdtsc;
      mret (Z.lor (uint64 (Z.shiftl (uint64 d) 32)) (uint64 a))
  | other_target =>
      cc ← call mrc_cycle_count;
      mret (uint64 (uint32 cc))
  end.

(** ** Threads *)

(** [noexcept]: the return code of [sched_yield] is not looked at. *)
Definition threadYield : M unit :=
  _ ← call sched_yield; mret tt.

Definition threadCurrent : M thread_t := call pthread_self.

Definition threadEqual (th1 th2 : thread_t) : bool :=
  negb (pthread_equal th1 th2 =? 0).

(** ** Thread local storage *)

Definition tlsGet (key : tls_t) : M pointer := call (pthread_getspecific key).

Definition tlsSet (key : tls_t) (value : pointer) : M unit :=
  cc ← call (pthread_setspecific key value);
  if negb (cc =? 0)
  then throw (RunTimeException FILE_ 306 (Some (systemErrorToString cc)))
  else mret tt.

End Wrappers.

(** [ThreadRealTimeParam]: the constructor sets [sched_priority] to -1. *)
Record ThreadRealTimeParam : Type := { sched_priority : Z }.

Definition ThreadRealTimeParam_new : ThreadRealTimeParam :=
  {| sched_priority := -1 |}.

End PlatformRest.

(** The scripted operating system, continued. *)
Module ScriptedRest.
Import Platform PlatformRest.

(** The time stamp counter runs at one tick per nanosecond of the clock. *)
Definition counter (w : Scripted.world) : Z :=
  timestamp (Scripted.clock w).

#[export] Instance linux_system : @System Scripted.linux :=
  @Build_System Scripted.linux
    (* thread_t, tls_t *) nat nat
    (* getpid *) (fun w => (4242, w))
    (* getpagesize *) (fun w => (4096, w))
    (* free *) (fun _ w => (tt, w))
    (* sched_yield *) Scripted.next_code
    (* pthread_self *) (fun w => (7%nat, w))
    (* pthread_equal *) (fun th1 th2 => if Nat.eqb th1 th2 then 1 else 0)
    (* pthread_getspecific *) (fun _ w => (0, w))
    (* pthread_setspecific *) (fun _ _ => Scripted.next_code)
    (* rdtsc *) (fun w => ((counter w mod 2 ^ 32, counter w / 2 ^ 32), w))
    (* mrc_cycle_count *) (fun w => (counter w, w)).

(** A memory with a byte at address 16 and a 64-bit counter at address 24. *)
Definition memory0 : memory := <[16 := 250]> (<[24 := 1000]> ∅).

End ScriptedRest.

(* ===================================================================== *)
(** * Properties of the platform layer                                    *)
(* ===================================================================== *)

Module PlatformProps.
Import Platform.

Lemma int64_id z : int64_range z -> int64 z = z.
Proof.
  unfold int64_range, int64. intros Hz.
  rewrite Z.mod_small by lia. lia.
Qed.

Lemma int64_mod z : int64 z mod 2 ^ 64 = z mod 2 ^ 64.
Proof.
  unfold int64.
  rewrite Zminus_mod, Z.mod_mod by lia.
  rewrite <- Zminus_mod. f_equal. lia.
Qed.

Lemma int64_congr a b : a mod 2 ^ 64 = b mod 2 ^ 64 -> int64 a = int64 b.
Proof.
  unfold int64. intros H.
  rewrite (Zplus_mod a), (Zplus_mod b), H. reflexivity.
Qed.

(** The three casts of the clock expression only wrap once. *)
Lemma int64_clock_expr s n :
  int64 (int64 (int64 s * int64 1000000000) + int64 n)
  = int64 (s * 1000000000 + n).
Proof.
  apply int64_congr.
  rewrite Zplus_mod, !int64_mod, <- Zplus_mod.
  rewrite (Zplus_mod (_ * _)), (Zmult_mod (int64 s)), !int64_mod.
  rewrite <- Zmult_mod, <- Zplus_mod. reflexivity.
Qed.

Section Run.
Context `{P : Platform}.

Lemma run_call_bind {A B} (f : World -> A * World) (k : A -> M B) w a w' :
  f w = (a, w') -> (call f ≫= k) w = k a w'.
Proof.
  intros H. unfold mbind, M_bind, call. rewrite H. reflexivity.
Qed.

End Run.

Ltac run_wrapper H :=
  erewrite run_call_bind by exact H; cbn beta iota;
  unfold throw, mret, M_ret.


Section Claims.
Context `{P : Platform}.

(** C5.  [mutexTryLock] has exactly three outcomes: it returns [true] when
    [pthread_mutex_trylock] returns 0 (lock acquired), returns [false] when
    it returns [EBUSY] (mutex busy), and throws a [RunTimeException] for
    every other return code; a boolean result is only ever produced for the
    return codes 0 and [EBUSY]. *)
Theorem mutexTryLock_three_outcomes (handle : mutex_t) (w w' : World) (cc : Z) :
  EBUSY <> 0 ->
  pthread_mutex_trylock handle w = (cc, w') ->
  (cc = 0 -> mutexTryLock handle w = (Return true, w')) /\
  (cc = EBUSY -> mutexTryLock handle w = (Return false, w')) /\
  (cc <> 0 -> cc <> EBUSY ->
   mutexTryLock handle w =
   (Throw (RunTimeException FILE_ 229 (Some (systemErrorToString cc))), w')) /\
  (forall b, (mutexTryLock handle w).1 = Return b -> cc = 0 \/ cc = EBUSY).
Proof.
  intros Hbusy Hos. unfold mutexTryLock. run_wrapper Hos.
  destruct (Z.eqb_spec cc 0) as [H0 | H0];
    destruct (Z.eqb_spec cc EBUSY) as [Hb | Hb]; cbn;
    repeat split; try congruence; intros; try congruence; auto.
Qed.

End Claims.

Lemma mutexTryLock_three_outcomes_witness :
  mutexTryLock (P := Scripted.linux) 0%nat (Scripted.returning 16)
  = (Return false, Scripted.spent).
Proof.
  refine (proj1 (proj2 (mutexTryLock_three_outcomes (P := Scripted.linux)
            0%nat (Scripted.returning 16) Scripted.spent 16 _ _)) _).
  - vm_compute. discriminate.
  - reflexivity.
  - reflexivity.
Defined.


Section Deadline.
Context `{P : Platform}.

(** The deadline of the timed wait is the duration added to the epoch. *)
Lemma tout_sum (pTimeOut currentEpochTime : Time) :
  well_formed_Time pTimeOut -> well_formed_Time currentEpochTime ->
  0 <= extractNanoseconds pTimeOut < 1000000000 ->
  0 <= extractNanoseconds currentEpochTime < 1000000000 ->
  timestamp (mutexSignalWait_tout pTimeOut currentEpochTime)
  = nanoseconds pTimeOut + nanoseconds currentEpochTime
  /\ normalized (mutexSignalWait_tout pTimeOut currentEpochTime).
Proof.
  intros [Hrp Hsp] [Hrc Hsc] Hp Hc.
  unfold mutexSignalWait_tout, timestamp, normalized; cbn [tv_sec tv_nsec].
  set (a := extractNanoseconds pTimeOut) in *.
  set (b := extractNanoseconds currentEpochTime) in *.
  set (sp := extractSeconds pTimeOut) in *.
  set (sc := extractSeconds currentEpochTime) in *.
  unfold int64_range in *.
  rewrite (int64_id (a + b)) by (unfold int64_range; lia).
  pose proof (Z.quot_rem' (a + b) 1000000000) as Hqr.
  pose proof (Z.rem_bound_pos (a + b) 1000000000 ltac:(lia) ltac:(lia)) as Hr.
  set (q := Z.quot (a + b) 1000000000) in *.
  set (r := Z.rem (a + b) 1000000000) in *.
  assert (0 <= q <= 1) by lia.
  rewrite int64_id by (unfold int64_range; lia).
  lia.
Qed.

End Deadline.

Section MoreClaims.
Context `{P : Platform}.

(** C6.  The deadline-bearing [mutexSignalWait] returns normally when
    [pthread_cond_timedwait] returns 0 or [ETIMEDOUT] and throws only for the
    other return codes; the deadline it hands to the C library is computed
    from the duration [pTimeOut] and the separately passed epoch time: for
    well-formed inputs it stands for their sum, not for [pTimeOut] alone;
    when the epoch argument is left out, it is captured by [timeGetEpoch]
    at the call. *)
Theorem mutexSignalWait_timed_outcomes (signal : signal_t) (lockedMutex : mutex_t)
    (pTimeOut currentEpochTime : Time) (w w' : World) (cc : Z) :
  pthread_cond_timedwait signal lockedMutex
    (mutexSignalWait_tout pTimeOut currentEpochTime) w = (cc, w') ->
  let run := mutexSignalWait_timed signal lockedMutex pTimeOut currentEpochTime w in
  (cc = ETIMEDOUT -> run = (Return tt, w')) /\
  (cc = 0 -> run = (Return tt, w')) /\
  (cc <> 0 -> cc <> ETIMEDOUT -> run = (Throw (RunTimeException FILE_ 277 None), w')) /\
  (forall e, run.1 = Throw e -> cc <> 0 /\ cc <> ETIMEDOUT) /\
  (well_formed_Time pTimeOut -> well_formed_Time currentEpochTime ->
   0 <= extractNanoseconds pTimeOut < 1000000000 ->
   0 <= extractNanoseconds currentEpochTime < 1000000000 ->
   timestamp (mutexSignalWait_tout pTimeOut currentEpochTime)
   = nanoseconds pTimeOut + nanoseconds currentEpochTime) /\
  (forall (v v' : World) (rc : Z) (now : timeval),
     gettimeofday v = ((rc, now), v') ->
     mutexSignalWait_default_epoch signal lockedMutex pTimeOut v
     = mutexSignalWait_timed signal lockedMutex pTimeOut
         (DateTime (tvl_sec now) (Z.quot (uint32 (tv_usec now)) 1000)) v').
Proof.
  intros Hos run. subst run. unfold mutexSignalWait_timed. cbn zeta.
  run_wrapper Hos.
  assert (Hdefault : forall (v v' : World) (rc : Z) (now : timeval),
     gettimeofday v = ((rc, now), v') ->
     mutexSignalWait_default_epoch signal lockedMutex pTimeOut v
     = mutexSignalWait_timed signal lockedMutex pTimeOut
         (DateTime (tvl_sec now) (Z.quot (uint32 (tv_usec now)) 1000)) v').
  { intros v v' rc now Hv.
    unfold mutexSignalWait_default_epoch, timeGetEpoch.
    unfold mbind at 1, M_bind at 1.
    erewrite run_call_bind by exact Hv. reflexivity. }
  destruct (Z.eqb_spec cc 0) as [H0 | H0];
    destruct (Z.eqb_spec cc ETIMEDOUT) as [Ht | Ht]; cbn;
    (split; [| split; [| split; [| split; [| split]]]];
     try congruence; try (intros; congruence);
     try (intros; apply tout_sum; assumption);
     try exact Hdefault;
     try (intros; split; congruence)).
Qed.

(** C8.  [HighResolutionTime::operator()] reads [CLOCK_MONOTONIC]; it throws
    a [RunTimeException] if and only if [clock_gettime] returns nonzero, and
    otherwise returns the 64-bit value of [tv_sec * 1000000000 + tv_nsec],
    which is that number itself whenever it fits 64 bits; later readings of
    the monotonic clock give later timestamps. *)
Theorem HighResolutionTime_reading (w w' : World) (cc : Z) (t : timespec) :
  clock_gettime CLOCK_MONOTONIC w = ((cc, t), w') ->
  ((exists e, (HighResolutionTime w).1 = Throw e) <-> cc <> 0) /\
  (cc <> 0 -> HighResolutionTime w = (Throw (RunTimeException FILE_ 93 None), w')) /\
  (cc = 0 ->
   HighResolutionTime w
   = (Return {| nanoseconds := int64 (tv_sec t * 1000000000 + tv_nsec t) |}, w')) /\
  (cc = 0 -> int64_range (timestamp t) ->
   HighResolutionTime w = (Return {| nanoseconds := timestamp t |}, w')) /\
  (forall (v v' : World) (u : timespec) (T U : Time),
     clock_gettime CLOCK_MONOTONIC v = ((0, u), v') ->
     int64_range (timestamp t) -> int64_range (timestamp u) ->
     normalized t -> normalized u -> timespec_le t u ->
     (HighResolutionTime w).1 = Return T ->
     (HighResolutionTime v).1 = Return U ->
     nanoseconds T <= nanoseconds U).
Proof.
  intros Hos.
  assert (Hrun : forall x x' c r, clock_gettime CLOCK_MONOTONIC x = ((c, r), x') ->
            HighResolutionTime x
            = if negb (c =? 0) then (Throw (RunTimeException FILE_ 93 None), x')
              else (Return {| nanoseconds := int64 (timestamp r) |}, x')).
  { intros x x' c r Hx. unfold HighResolutionTime. run_wrapper Hx.
    rewrite int64_clock_expr. unfold timestamp. destruct (c =? 0); reflexivity. }
  rewrite (Hrun _ _ _ _ Hos).
  destruct (Z.eqb_spec cc 0) as [H0 | H0]; cbn.
  - repeat split; try congruence.
    + intros [e He]. discriminate.
    + intros _ Hr. rewrite int64_id by exact Hr. reflexivity.
    + intros v v' u T U Hv Hrt Hru Hnt Hnu Hle HT HU.
      rewrite (Hrun _ _ _ _ Hv) in HU. cbn in HU.
      injection HT as <-. injection HU as <-. cbn.
      rewrite !int64_id by assumption.
      unfold timestamp, normalized, timespec_le in *. nia.
  - repeat split; try congruence; try (intros; congruence).
    eexists; reflexivity.
Qed.

(** C9.  For two [Time] inputs whose nanoseconds components lie in
    [0, 1000000000), the deadline computed by the timed [mutexSignalWait]
    stands for exactly the sum of the two inputs' total nanoseconds:
    [tv_sec * 1000000000 + tv_nsec] equals that sum, and [tv_nsec] lies in
    [0, 1000000000). *)
Theorem mutexSignalWait_tout_exact (pTimeOut currentEpochTime : Time) :
  well_formed_Time pTimeOut -> well_formed_Time currentEpochTime ->
  0 <= extractNanoseconds pTimeOut < 1000000000 ->
  0 <= extractNanoseconds currentEpochTime < 1000000000 ->
  let tout := mutexSignalWait_tout pTimeOut currentEpochTime in
  tv_sec tout * 1000000000 + tv_nsec tout
  = nanoseconds pTimeOut + nanoseconds currentEpochTime
  /\ 0 <= tv_nsec tout < 1000000000.
Proof.
  intros Hp Hc Hnp Hnc tout. exact (tout_sum _ _ Hp Hc Hnp Hnc).
Qed.

(** C10.  [alignMalloc] returns the pointer [posix_memalign] stored when that
    call returns 0, throws [std::bad_alloc] when it fails with [ENOMEM], and
    throws a [RunTimeException] for every other nonzero return code; a
    pointer is only ever returned after a successful allocation. *)
Theorem alignMalloc_outcomes (alignement size : Z) (w w' : World)
    (cc : Z) (ret : pointer) :
  posix_memalign alignement size w = ((cc, ret), w') ->
  (cc = 0 -> alignMalloc alignement size w = (Return ret, w')) /\
  (cc <> 0 -> cc = ENOMEM -> alignMalloc alignement size w = (Throw bad_alloc, w')) /\
  (cc <> 0 -> cc <> ENOMEM ->
   alignMalloc alignement size w = (Throw (RunTimeException FILE_ 152 None), w')) /\
  (forall p, (alignMalloc alignement size w).1 = Return p -> cc = 0 /\ p = ret).
Proof.
  intros Hos. unfold alignMalloc. run_wrapper Hos.
  destruct (Z.eqb_spec cc 0) as [H0 | H0];
    destruct (Z.eqb_spec cc ENOMEM) as [Hm | Hm]; cbn;
    repeat split; try congruence; intros; try congruence.
Qed.

(** C7.  What the code does when a creation or destruction call of the C
    library fails with [cc]: every wrapper throws, and none ignores the
    failure, but only the mutex wrappers pass the system error text;
    [mutexSignalCreate] and [mutexSignalDestroy] throw a [RunTimeException]
    that carries no text, where [mutexDestroy], [mutexLock] and
    [mutexUnlock] carry [systemErrorToString cc]. *)
Theorem mutexSignal_failure_without_text (handle : signal_t) (m : mutex_t)
    (w w' : World) (cc : Z) (created : signal_t) :
  cc <> 0 ->
  (pthread_cond_init w = ((cc, created), w') ->
   mutexSignalCreate w = (Throw (RunTimeException FILE_ 247 None), w') /\
   error_text (RunTimeException FILE_ 247 None) = None) /\
  (pthread_cond_destroy handle w = (cc, w') ->
   mutexSignalDestroy handle w = (Throw (RunTimeException FILE_ 256 None), w') /\
   error_text (RunTimeException FILE_ 256 None) = None) /\
  (pthread_mutex_destroy m w = (cc, w') ->
   exists e, mutexDestroy m w = (Throw e, w') /\
             error_text e = Some (systemErrorToString cc)) /\
  (pthread_mutex_lock m w = (cc, w') ->
   exists e, mutexLock m w = (Throw e, w') /\
             error_text e = Some (systemErrorToString cc)) /\
  (pthread_mutex_unlock m w = (cc, w') ->
   exists e, mutexUnlock m w = (Throw e, w') /\
             error_text e = Some (systemErrorToString cc)).
Proof.
  intros Hcc. apply Z.eqb_neq in Hcc.
  split; [| split; [| split; [| split]]]; intros Hos;
    unfold mutexSignalCreate, mutexSignalDestroy, mutexDestroy, mutexLock,
      mutexUnlock; run_wrapper Hos; rewrite Hcc; cbn.
  - split; reflexivity.
  - split; reflexivity.
  - eexists; split; reflexivity.
  - eexists; split; reflexivity.
  - eexists; split; reflexivity.
Qed.

End MoreClaims.

Lemma mutexSignalWait_timed_outcomes_witness :
  mutexSignalWait_timed (P := Scripted.linux) 1%nat 0%nat
    {| nanoseconds := 500000000 |} {| nanoseconds := 1700000000999999999 |}
    (Scripted.returning 110)
  = (Return tt, Scripted.spent).
Proof.
  pose proof (mutexSignalWait_timed_outcomes (P := Scripted.linux) 1%nat 0%nat
    {| nanoseconds := 500000000 |} {| nanoseconds := 1700000000999999999 |}
    (Scripted.returning 110) Scripted.spent 110 eq_refl) as H.
  cbv zeta in H. exact (proj1 H eq_refl).
Defined.

(** The overload called without an epoch argument, on the scripted system:
    the epoch is read first, then the wait times out. *)
Example mutexSignalWait_default_epoch_times_out :
  mutexSignalWait_default_epoch (P := Scripted.linux) 1%nat 0%nat
    {| nanoseconds := 500000000 |}
    {| Scripted.codes := [0; 110];
       Scripted.clock := {| tv_sec := 5; tv_nsec := 250 |} |}
  = (Return tt, Scripted.spent).
Proof. reflexivity. Qed.

Lemma HighResolutionTime_reading_witness :
  HighResolutionTime (P := Scripted.linux) (Scripted.returning 0)
  = (Return {| nanoseconds := 5000000250 |}, Scripted.spent).
Proof.
  refine (proj1 (proj2 (proj2 (proj2
    (HighResolutionTime_reading (P := Scripted.linux) (Scripted.returning 0)
       Scripted.spent 0 {| tv_sec := 5; tv_nsec := 250 |} _)))) _ _).
  - reflexivity.
  - reflexivity.
  - unfold int64_range, timestamp. cbn. lia.
Defined.

Lemma mutexSignalWait_tout_exact_witness :
  let tout := mutexSignalWait_tout (P := Scripted.linux)
                {| nanoseconds := 1999999999 |}
                {| nanoseconds := 1700000000999999999 |} in
  tv_sec tout * 1000000000 + tv_nsec tout = 1999999999 + 1700000000999999999
  /\ 0 <= tv_nsec tout < 1000000000.
Proof.
  apply (mutexSignalWait_tout_exact (P := Scripted.linux)
           {| nanoseconds := 1999999999 |}
           {| nanoseconds := 1700000000999999999 |}).
  - split; [unfold int64_range; cbn; lia | reflexivity].
  - split; [unfold int64_range; cbn; lia | reflexivity].
  - vm_compute. split; [discriminate | reflexivity].
  - vm_compute. split; [discriminate | reflexivity].
Defined.

Lemma alignMalloc_outcomes_witness :
  alignMalloc (P := Scripted.linux) 64 4096 (Scripted.returning 12)
  = (Throw bad_alloc, Scripted.spent).
Proof.
  refine (proj1 (proj2 (alignMalloc_outcomes (P := Scripted.linux) 64 4096
            (Scripted.returning 12) Scripted.spent 12 (64 * 4096) _)) _ _).
  - reflexivity.
  - discriminate.
  - reflexivity.
Defined.

Lemma mutexSignal_failure_without_text_witness :
  mutexSignalCreate (P := Scripted.linux) (Scripted.returning 12)
  = (Throw (RunTimeException FILE_ 247 None), Scripted.spent)
  /\ error_text (RunTimeException FILE_ 247 None) = None.
Proof.
  refine (proj1 (mutexSignal_failure_without_text (P := Scripted.linux)
            0%nat 0%nat (Scripted.returning 12) Scripted.spent 12 1%nat _) _).
  - discriminate.
  - reflexivity.
Defined.

End PlatformProps.

(* ===================================================================== *)
(** * Properties of the actor core                                        *)
(* ===================================================================== *)

Module CoreProps.
Import Core.

(** ** Registry *)

Lemma resolve_invalidate_eq (id : ActorId) (r : Registry) :
  resolve id (invalidate id r) = NotFound.
Proof.
  unfold resolve, invalidate. rewrite lookup_alter_eq.
  destruct (r !! id); reflexivity.
Qed.

Lemma resolve_invalidate_ne (id id' : ActorId) (r : Registry) :
  id <> id' -> resolve id (invalidate id' r) = resolve id r.
Proof.
  intros Hne. unfold resolve, invalidate. rewrite lookup_alter_ne by congruence.
  reflexivity.
Qed.

Lemma dead_resolve id r : dead id r -> resolve id r = NotFound.
Proof. intros (e & He & Hl). unfold resolve. rewrite He, Hl. reflexivity. Qed.

Lemma invalidate_dead id r : is_Some (r !! id) -> dead id (invalidate id r).
Proof.
  intros [e He]. exists {| owner := owner e; live := false |}.
  unfold invalidate. rewrite lookup_alter_eq, He. split; reflexivity.
Qed.

Lemma register_fresh w r : r !! (register w r).1 = None.
Proof.
  unfold register; cbn. apply not_elem_of_dom. apply is_fresh.
Qed.

Lemma dead_step id r op : dead id r -> dead id (registry_step r op).
Proof.
  intros (e & He & Hl). destruct op as [t w | t id' | t id']; cbn.
  - exists e. split; [| exact Hl].
    rewrite lookup_insert_ne; [exact He |].
    intros Heq. pose proof (register_fresh w r) as Hf. cbn in Hf.
    rewrite Heq, He in Hf. discriminate.
  - exists e. auto.
  - unfold invalidate. destruct (decide (id' = id)) as [-> | Hne].
    + exists {| owner := owner e; live := false |}.
      rewrite lookup_alter_eq, He. split; reflexivity.
    + exists e. rewrite lookup_alter_ne by exact Hne. auto.
Qed.

Lemma dead_run id ops r : dead id r -> dead id (registry_run ops r).
Proof.
  unfold registry_run. revert r.
  induction ops as [| op ops IH]; intros r Hd; cbn; [exact Hd |].
  apply IH, dead_step, Hd.
Qed.

Lemma registered_step id r op :
  is_Some (r !! id) -> is_Some (registry_step r op !! id).
Proof.
  intros [e He]. destruct op as [t w | t id' | t id']; cbn.
  - rewrite lookup_insert_ne; [eauto |].
    intros Heq. pose proof (register_fresh w r) as Hf. cbn in Hf.
    rewrite Heq, He in Hf. discriminate.
  - eauto.
  - unfold invalidate. destruct (decide (id' = id)) as [-> | Hne].
    + rewrite lookup_alter_eq, He. cbn. eauto.
    + rewrite lookup_alter_ne by exact Hne. eauto.
Qed.

Lemma registered_run id ops r :
  is_Some (r !! id) -> is_Some (registry_run ops r !! id).
Proof.
  unfold registry_run. revert r.
  induction ops as [| op ops IH]; intros r Hr; cbn; [exact Hr |].
  apply IH, registered_step, Hr.
Qed.

(** C1.  Once [invalidate id] has completed for the id of a registered
    actor, every later [resolve id] returns NotFound, whatever calls
    ([register], [resolve], [invalidate], from any thread) went through the
    registry in between, and no later [register] hands out that id again:
    the id never resolves to a live handle again. *)
Theorem resolve_after_invalidate (r : Registry) (id : ActorId)
    (ops : list RegistryOp) :
  is_Some (r !! id) ->
  resolve id (registry_run ops (invalidate id r)) = NotFound /\
  (forall w, (register w (registry_run ops (invalidate id r))).1 <> id).
Proof.
  intros Hreg. split.
  - apply dead_resolve, dead_run, invalidate_dead, Hreg.
  - intros w Heq.
    pose proof (register_fresh w (registry_run ops (invalidate id r))) as Hf.
    rewrite Heq in Hf.
    destruct (registered_run id ops (invalidate id r)) as [e He].
    + destruct (invalidate_dead id r Hreg) as (e & He & _). eauto.
    + rewrite He in Hf. discriminate.
Qed.

Lemma resolve_after_invalidate_witness :
  resolve Scripted.actor0
    (registry_run
       [Register 3%nat 7%nat; Resolve 1%nat Scripted.actor0;
        Invalidate 2%nat Scripted.actor1; Register 0%nat 0%nat]
       (invalidate Scripted.actor0 Scripted.registry1))
  = NotFound.
Proof.
  refine (proj1 (resolve_after_invalidate Scripted.registry1 Scripted.actor0
            _ _)).
  vm_compute. eexists. reflexivity.
Defined.

(** ** Actor *)

Section ActorProps.
Context {Event State : Type} (handler : Event -> State -> State * bool).

#[local] Abbreviation Actor := (@Actor Event State).

Lemma processOne_cons (a : Actor) e rest :
  mailbox a = e :: rest ->
  let a' := (processOne handler a).1 in
  mailbox a' = rest /\ handled a' = handled a ++ [e] /\
  state a' = (handler e (state a)).1 /\
  (processOne handler a).2 = match rest with [] => false | _ :: _ => true end.
Proof.
  intros Hm. unfold processOne. rewrite Hm.
  destruct (handler e (state a)) as [s d]. cbn. auto.
Qed.

Lemma processOne_nil (a : Actor) :
  mailbox a = [] -> processOne handler a = (a, false).
Proof. intros Hm. unfold processOne. rewrite Hm. reflexivity. Qed.

(** Draining executes the pending events from the front of the mailbox. *)
Lemma drain_mailbox (q : list Event) : forall (a : Actor) (fuel : nat),
  mailbox a = q -> (length q <= fuel)%nat ->
  handled (drain handler fuel a) = handled a ++ q /\
  state (drain handler fuel a) = handle_all handler (state a) q /\
  mailbox (drain handler fuel a) = [].
Proof.
  induction q as [| e rest IH]; intros a fuel Hm Hf.
  - destruct fuel as [| n]; cbn.
    + rewrite app_nil_r. auto.
    + rewrite processOne_nil by exact Hm. rewrite app_nil_r. auto.
  - destruct fuel as [| n]; cbn in Hf; [lia |].
    cbn [drain].
    destruct (processOne_cons a e rest Hm) as (Hm' & Hh' & Hs' & Hb).
    destruct (processOne handler a) as [a' more]. cbn in Hm', Hh', Hs', Hb.
    destruct rest as [| e' rest'].
    + subst more. cbn. rewrite Hh', Hs', Hm'. auto.
    + subst more.
      destruct (IH a' n Hm' ltac:(cbn in *; lia)) as (IHh & IHs & IHm).
      rewrite IHh, IHs, IHm, Hh', Hs'. rewrite <- app_assoc. cbn. auto.
Qed.

(** Between the calls of a schedule, the handled events followed by the
    pending ones are the events enqueued so far, in enqueue order. *)
Lemma schedule_invariant (ops : list (@ActorOp Event)) : forall (a : Actor),
  handled (actor_run handler ops a) ++ mailbox (actor_run handler ops a)
  = handled a ++ mailbox a ++ enqueued handler a ops.
Proof.
  unfold actor_run.
  induction ops as [| op ops IH]; intros a; cbn [foldl enqueued].
  - rewrite app_nil_r. reflexivity.
  - rewrite IH. destruct op as [e |]; cbn [actor_step].
    + unfold deliver. destruct (accepting a); cbn.
      * rewrite <- !app_assoc. reflexivity.
      * reflexivity.
    + destruct (mailbox a) as [| e rest] eqn:Hm.
      * rewrite processOne_nil by exact Hm. cbn. rewrite Hm. reflexivity.
      * destruct (processOne_cons a e rest Hm) as (Hm' & Hh' & _ & _).
        cbn in Hm', Hh'. rewrite Hm', Hh', <- !app_assoc. reflexivity.
Qed.

(** The private state is the result of the handlers of the handled events. *)
Lemma schedule_state (ops : list (@ActorOp Event)) : forall (a : Actor),
  exists done : list Event,
    handled (actor_run handler ops a) = handled a ++ done /\
    state (actor_run handler ops a) = handle_all handler (state a) done.
Proof.
  unfold actor_run.
  induction ops as [| op ops IH]; intros a; cbn [foldl].
  - exists []. rewrite app_nil_r. auto.
  - destruct (IH (actor_step handler a op)) as (done & Hh & Hs).
    destruct op as [e |]; cbn [actor_step] in *.
    + exists done. rewrite Hh, Hs. unfold deliver.
      destruct (accepting a); auto.
    + destruct (mailbox a) as [| e rest] eqn:Hm.
      * rewrite processOne_nil in Hh, Hs |- * by exact Hm. eauto.
      * destruct (processOne_cons a e rest Hm) as (_ & Hh' & Hs' & _).
        cbn in Hh', Hs'. exists (e :: done).
        rewrite Hh, Hs, Hh', Hs', <- app_assoc. auto.
Qed.

(** C3.  The events enqueued to one actor, however their delivery is
    interleaved with event processing, are executed by repeated calls to
    [processOne] in exactly the order in which they were enqueued: once the
    mailbox is drained, the handled events are the earlier ones followed by
    the enqueued ones in enqueue order, and the private state is the result
    of running their handlers in that order. *)
Theorem processOne_fifo (a : Actor) (ops : list (@ActorOp Event)) (fuel : nat) :
  (length (mailbox (actor_run handler ops a)) <= fuel)%nat ->
  let final := drain handler fuel (actor_run handler ops a) in
  handled final = handled a ++ mailbox a ++ enqueued handler a ops /\
  mailbox final = [] /\
  state final
  = handle_all handler (state a) (mailbox a ++ enqueued handler a ops).
Proof.
  intros Hf final. subst final.
  destruct (drain_mailbox _ (actor_run handler ops a) fuel eq_refl Hf)
    as (Hh & Hs & Hm).
  pose proof (schedule_invariant ops a) as Hinv.
  destruct (schedule_state ops a) as (done & Hd & Hst).
  rewrite Hh, Hs, Hm, Hinv. repeat split.
  rewrite Hd, <- app_assoc in Hinv. apply app_inv_head in Hinv.
  rewrite <- Hinv, Hst. unfold handle_all. rewrite foldl_app. reflexivity.
Qed.

End ActorProps.

Lemma processOne_fifo_witness :
  handled
    (drain Scripted.digits 5
       (actor_run Scripted.digits
          [Deliver 3%nat; Deliver 1%nat; ProcessOne; Deliver 0%nat;
           Deliver 4%nat; ProcessOne; ProcessOne; Deliver 9%nat]
          Scripted.fresh_actor))
  = [3%nat; 1%nat; 0%nat; 4%nat].
Proof.
  refine (proj1 (processOne_fifo Scripted.digits Scripted.fresh_actor
            [Deliver 3%nat; Deliver 1%nat; ProcessOne; Deliver 0%nat;
             Deliver 4%nat; ProcessOne; ProcessOne; Deliver 9%nat] 5 _)).
  vm_compute. lia.
Defined.


(** ** Worker and engine *)

Section EngineProps.
Context {Event State : Type} (handler : Event -> State -> State * bool).

#[local] Abbreviation Worker := (@Worker Event State).
#[local] Abbreviation Engine := (@Engine Event State).

Lemma invalidate_keeps_NotFound id id' (r : Registry) :
  resolve id r = NotFound -> resolve id (invalidate id' r) = NotFound.
Proof.
  intros H. destruct (decide (id = id')) as [-> | Hne].
  - apply resolve_invalidate_eq.
  - rewrite resolve_invalidate_ne by exact Hne. exact H.
Qed.

Lemma destroy_actor_registry st (ia : ActorId * @Core.Actor Event State) :
  (destroy_actor handler st ia).2 = invalidate ia.1 st.2.
Proof. destruct ia as [id a]. reflexivity. Qed.

Lemma destroy_all_keeps acts : forall st id,
  resolve id st.2 = NotFound ->
  resolve id (foldl (destroy_actor handler) st acts).2 = NotFound.
Proof.
  induction acts as [| ia acts IH]; intros st id H; cbn; [exact H |].
  apply IH. rewrite destroy_actor_registry.
  apply invalidate_keeps_NotFound, H.
Qed.

Lemma destroy_all_invalidates acts : forall st id,
  In id (map fst acts) ->
  resolve id (foldl (destroy_actor handler) st acts).2 = NotFound.
Proof.
  induction acts as [| ia acts IH]; intros st id Hin; cbn in *; [tauto |].
  destruct Hin as [<- | Hin].
  - apply destroy_all_keeps. rewrite destroy_actor_registry.
    apply resolve_invalidate_eq.
  - apply IH, Hin.
Qed.

Lemma signal_shutdown_state (w : Worker) :
  owned (signal_shutdown w) = owned w /\
  ((wstate w = Stopped /\ signal_shutdown w = w) \/
   (wstate w <> Stopped /\ wstate (signal_shutdown w) = Draining)).
Proof.
  unfold signal_shutdown. destruct (wstate w) eqn:Hs; cbn;
    (split; [reflexivity |]); first [left; now auto | right; now auto].
Qed.

(** What joining one signalled worker gives. *)
Lemma join_signalled (w : Worker) (r : Registry) :
  exists w' r',
    join handler (signal_shutdown w) r = Some (w', r') /\
    wstate w' = Stopped /\
    (wstate w = Stopped -> w' = w /\ r' = r) /\
    (wstate w <> Stopped -> owned w' = []) /\
    (forall id, resolve id r = NotFound -> resolve id r' = NotFound) /\
    (forall id, wstate w <> Stopped -> In id (map fst (owned w)) ->
                resolve id r' = NotFound).
Proof.
  destruct (signal_shutdown_state w) as [Ho [[Hs Heq] | [Hs Hd]]].
  - rewrite Heq. unfold join. rewrite Hs. exists w, r.
    repeat split; auto; try contradiction.
  - unfold join. rewrite Hd, Ho.
    destruct (foldl (destroy_actor handler) (wlog (signal_shutdown w), r) (owned w))
      as [log r'] eqn:Hf.
    eexists _, r'. split; [reflexivity |]. cbn.
    repeat split; try contradiction; auto.
    + intros id H.
      pose proof (destroy_all_keeps (owned w) (wlog (signal_shutdown w), r) id H) as K.
      rewrite Hf in K. exact K.
    + intros id _ Hin.
      pose proof (destroy_all_invalidates (owned w) (wlog (signal_shutdown w), r) id Hin) as K.
      rewrite Hf in K. exact K.
Qed.

(** Joining all signalled workers returns, with every worker stopped and
    every actor of a worker that was still running invalidated. *)
Lemma join_workers_signalled (ws : list Worker) : forall (r : Registry),
  exists ws' r',
    join_workers handler (map signal_shutdown ws) r = Some (ws', r') /\
    Forall (fun w => wstate w = Stopped) ws' /\
    (Forall (fun w => wstate w = Stopped) ws -> ws' = ws /\ r' = r) /\
    (Forall (fun w => wstate w = Stopped -> owned w = []) ws ->
     Forall (fun w => owned w = []) ws') /\
    (forall id, resolve id r = NotFound -> resolve id r' = NotFound) /\
    (forall id w, In w ws -> wstate w <> Stopped -> In id (map fst (owned w)) ->
                  resolve id r' = NotFound).
Proof.
  induction ws as [| w ws IH]; intros r; cbn [map join_workers].
  - exists [], r. repeat split; auto. intros id w [].
  - destruct (join_signalled w r) as (w' & r1 & Hj & Hst & Hsame & Hown & Hkeep & Hinv).
    rewrite Hj.
    destruct (IH r1) as (ws' & r2 & Hjs & Hall & Hsames & Howns & Hkeeps & Hinvs).
    rewrite Hjs. exists (w' :: ws'), r2. split; [reflexivity |].
    split; [constructor; assumption |].
    split; [| split; [| split]].
    + intros Hs. inversion Hs as [| ? ? Hw Hws]; subst.
      destruct (Hsame Hw) as [-> ->]. destruct (Hsames Hws) as [-> ->]. auto.
    + intros Hs. inversion Hs as [| ? ? Hw Hws]; subst.
      constructor; [| auto].
      destruct (decide (wstate w = Stopped)) as [E | E].
      * destruct (Hsame E) as [-> _]. auto.
      * auto.
    + auto.
    + intros id x [<- | Hx] Hns Hin.
      * apply Hkeeps, Hinv; assumption.
      * eapply Hinvs; eassumption.
Qed.

Lemma in_actors_of (e : Engine) id :
  In id (actors_of e) -> exists w, In w (workers e) /\ In id (map fst (owned w)).
Proof.
  unfold actors_of. intros Hin. apply in_concat in Hin as (l & Hl & Hid).
  apply in_map_iff in Hl as (w & <- & Hw). eauto.
Qed.

(** C4.  [stop] returns; when it does, every worker is [Stopped] and owns no
    actor, every actor the workers owned was invalidated in the registry
    before the registry was destroyed, and the registry holds no entry;
    calling [stop] again succeeds and leaves that final state unchanged. *)
Theorem stop_final_state (e : Engine) :
  stopped_owns_nothing e ->
  exists joined final : Engine,
    join_all handler (signal_all e) = Some joined /\
    stop handler e = Some final /\
    final = destroy_registry joined /\
    Forall (fun w => wstate w = Stopped) (workers final) /\
    Forall (fun w => owned w = []) (workers final) /\
    (forall id, In id (actors_of e) -> resolve id (registry joined) = NotFound) /\
    (forall id, resolve id (registry final) = NotFound) /\
    registry final = ∅ /\
    stop handler final = Some final.
Proof.
  intros Hwf. unfold stop, join_all, signal_all. cbn [workers registry].
  destruct (join_workers_signalled (workers e) (registry e))
    as (ws' & r' & Hj & Hall & _ & Hown & _ & Hinv).
  rewrite Hj. eexists _, _. split; [reflexivity |]. split; [reflexivity |].
  cbn [destroy_registry workers registry].
  repeat split; auto.
  - intros id Hin. apply in_actors_of in Hin as (w & Hw & Hid).
    apply (Hinv id w Hw); [| exact Hid].
    intros Hs. unfold stopped_owns_nothing in Hwf.
    rewrite Forall_forall in Hwf. specialize (Hwf w).
    rewrite Hwf in Hid; [destruct Hid | | exact Hs].
    apply list_elem_of_In, Hw.
  - destruct (join_workers_signalled ws' ∅) as (ws2 & r2 & Hj2 & _ & Hsame & _).
    rewrite Hj2. destruct (Hsame Hall) as [-> ->]. reflexivity.
Qed.

End EngineProps.

Lemma stop_final_state_witness :
  exists final,
    stop Scripted.digits Scripted.engine0 = Some final /\
    registry final = ∅ /\
    stop Scripted.digits final = Some final.
Proof.
  destruct (stop_final_state Scripted.digits Scripted.engine0)
    as (joined & final & _ & Hstop & _ & _ & _ & _ & _ & Hempty & Hagain).
  - unfold stopped_owns_nothing. cbn. repeat constructor; discriminate.
  - exists final. auto.
Defined.

End CoreProps.

(* ===================================================================== *)
(** * Properties of the rest of the platform layer                        *)
(* ===================================================================== *)

Module PlatformRestProps.
Import Platform PlatformRest PlatformProps.

(** ** Conversions to an integer type *)

Lemma pow2_half b : 0 < b -> 2 ^ b = 2 * 2 ^ (b - 1).
Proof.
  intros Hb. replace b with (Z.succ (b - 1)) at 1 by lia.
  apply Z.pow_succ_r. lia.
Qed.

Lemma cast_mod T z : 0 < bits T -> cast T z mod 2 ^ bits T = z mod 2 ^ bits T.
Proof.
  intros Hb. unfold cast. destruct (signed T).
  - rewrite Zminus_mod_idemp_l. f_equal. lia.
  - apply Z.mod_mod. apply Z.pow_nonzero; lia.
Qed.

Lemma cast_congr T a c :
  a mod 2 ^ bits T = c mod 2 ^ bits T -> cast T a = cast T c.
Proof.
  intros H. unfold cast. destruct (signed T).
  - rewrite (Zplus_mod a), (Zplus_mod c), H. reflexivity.
  - exact H.
Qed.

Lemma cast_fits T z : 0 < bits T -> fits T z -> cast T z = z.
Proof.
  intros Hb. unfold fits, cast. pose proof (pow2_half (bits T) Hb) as Hh.
  destruct (signed T); intros Hz.
  - rewrite Z.mod_small by lia. lia.
  - apply Z.mod_small. exact Hz.
Qed.

Lemma cast_add_sub T old x :
  0 < bits T -> fits T old -> cast T (cast T (old + x) - x) = old.
Proof.
  intros Hb Hf. rewrite <- (cast_fits T old Hb Hf) at 2.
  apply cast_congr.
  rewrite Zminus_mod, cast_mod, <- Zminus_mod by exact Hb.
  f_equal. lia.
Qed.

Lemma cast_idem T z : 0 < bits T -> cast T (cast T z) = cast T z.
Proof. intros Hb. apply cast_congr, cast_mod, Hb. Qed.

(** ** Atomics *)

(** X6.  Adding [delta] to an object and then subtracting the same [delta]
    gives back the value the object had, and the memory it was in, for every
    integer type and every [delta], wrap-around included. *)
Theorem atomicAdd_then_Sub (T : int_type) (ptr delta old : Z) (mem : memory) :
  0 < bits T -> mem !! ptr = Some old -> fits T old ->
  exists (v : Z) (mem1 : memory),
    atomicAddAndFetch T ptr delta mem = Some (v, mem1) /\
    mem1 !! ptr = Some v /\
    atomicSubAndFetch T ptr delta mem1 = Some (old, mem).
Proof.
  intros Hb Hm Hf. unfold atomicAddAndFetch, atomicSubAndFetch. rewrite Hm.
  eexists _, _. split; [reflexivity |]. cbn zeta.
  rewrite lookup_insert_eq. split; [reflexivity |].
  rewrite cast_add_sub by assumption.
  rewrite insert_insert_eq, insert_id by exact Hm. reflexivity.
Qed.

Lemma atomicAdd_then_Sub_witness :
  exists (v : Z) (mem1 : memory),
    atomicAddAndFetch uint8_t 16 10 ScriptedRest.memory0 = Some (v, mem1) /\
    mem1 !! 16 = Some v /\
    atomicSubAndFetch uint8_t 16 10 mem1 = Some (250, ScriptedRest.memory0).
Proof.
  apply (atomicAdd_then_Sub uint8_t 16 10 250 ScriptedRest.memory0).
  - reflexivity.
  - reflexivity.
  - vm_compute. split; [discriminate | reflexivity].
Defined.

(** On a byte holding 250, adding 10 wraps around to 4. *)
Example atomicAddAndFetch_wraps :
  atomicAddAndFetch uint8_t 16 10 ScriptedRest.memory0
  = Some (4, <[16 := 4]> ScriptedRest.memory0).
Proof. reflexivity. Qed.

(** X7.  A compare-and-swap on an object succeeds exactly when the object
    holds [oldval]; a failed one changes nothing, a successful one stores
    [newval] and touches no other object, and repeating a successful one
    succeeds again only if [newval] equals [oldval]. *)
Theorem atomicCompareAndSwap_behaviour (T : int_type)
    (ptr oldval newval current : Z) (mem : memory) :
  mem !! ptr = Some current ->
  exists (ok : bool) (mem' : memory),
    atomicCompareAndSwap T ptr oldval newval mem = Some (ok, mem') /\
    (ok = true <-> current = cast T oldval) /\
    (ok = false -> mem' = mem) /\
    (ok = true -> mem' !! ptr = Some (cast T newval)) /\
    (forall q, q <> ptr -> mem' !! q = mem !! q) /\
    (ok = true ->
     exists (again : bool) (mem'' : memory),
       atomicCompareAndSwap T ptr oldval newval mem' = Some (again, mem'') /\
       (again = true <-> cast T newval = cast T oldval)).
Proof.
  intros Hm. unfold atomicCompareAndSwap at 1. rewrite Hm.
  destruct (Z.eqb_spec current (cast T oldval)) as [Heq | Hne].
  - eexists true, _. split; [reflexivity |].
    split; [tauto |]. split; [discriminate |].
    split; [intros _; apply lookup_insert_eq |].
    split; [intros q Hq; apply lookup_insert_ne; congruence |].
    intros _. unfold atomicCompareAndSwap. rewrite lookup_insert_eq.
    destruct (Z.eqb_spec (cast T newval) (cast T oldval)) as [E | E].
    + eexists true, _. split; [reflexivity | tauto].
    + eexists false, _. split; [reflexivity |].
      split; [discriminate | contradiction].
  - eexists false, _. split; [reflexivity |].
    split; [split; [discriminate | contradiction] |].
    split; [reflexivity |]. split; [discriminate |].
    split; [reflexivity | discriminate].
Qed.

Lemma atomicCompareAndSwap_behaviour_witness :
  exists (ok : bool) (mem' : memory),
    atomicCompareAndSwap int64_t 24 1000 1001 ScriptedRest.memory0
    = Some (ok, mem') /\
    (ok = true <-> 1000 = cast int64_t 1000) /\
    (ok = false -> mem' = ScriptedRest.memory0) /\
    (ok = true -> mem' !! 24 = Some (cast int64_t 1001)) /\
    (forall q, q <> 24 -> mem' !! q = ScriptedRest.memory0 !! q) /\
    (ok = true ->
     exists (again : bool) (mem'' : memory),
       atomicCompareAndSwap int64_t 24 1000 1001 mem' = Some (again, mem'') /\
       (again = true <-> cast int64_t 1001 = cast int64_t 1000)).
Proof.
  exact (atomicCompareAndSwap_behaviour int64_t 24 1000 1001 1000
           ScriptedRest.memory0 eq_refl).
Defined.

(** X8.  [atomicAddAndFetch] adds its 32-bit unsigned [delta] modulo the
    width of the type: a [delta] that is a multiple of [2 ^ bits] adds
    nothing, and whenever the sum fits the type the result is the old value
    plus [delta] taken modulo [2 ^ 32], hence never below the old value: a
    negative [delta] does not subtract. *)
Theorem atomicAddAndFetch_delta (T : int_type) (ptr delta old : Z) (mem : memory) :
  0 < bits T -> mem !! ptr = Some old -> fits T old ->
  exists (v : Z) (mem' : memory),
    atomicAddAndFetch T ptr delta mem = Some (v, mem') /\
    v = cast T (old + uint32 delta) /\
    (uint32 delta mod 2 ^ bits T = 0 -> v = old /\ mem' = mem) /\
    (fits T (old + uint32 delta) -> v = old + uint32 delta /\ old <= v).
Proof.
  intros Hb Hm Hf. unfold atomicAddAndFetch. rewrite Hm. cbn zeta.
  eexists _, _. split; [reflexivity |].
  assert (Hv : cast T (old + cast T (uint32 delta)) = cast T (old + uint32 delta)).
  { apply cast_congr.
    rewrite Zplus_mod, cast_mod, <- Zplus_mod by exact Hb. reflexivity. }
  rewrite Hv. split; [reflexivity |]. split.
  - intros Hz.
    assert (Ho : cast T (old + uint32 delta) = old).
    { rewrite <- (cast_fits T old Hb Hf) at 2. apply cast_congr.
      rewrite Zplus_mod, Hz, Z.add_0_r, Z.mod_mod; [reflexivity |].
      apply Z.pow_nonzero; lia. }
    rewrite Ho. split; [reflexivity |]. apply insert_id, Hm.
  - intros Hs. rewrite (cast_fits T _ Hb Hs). split; [reflexivity |].
    unfold uint32. pose proof (Z.mod_pos_bound delta (2 ^ 32) ltac:(lia)). lia.
Qed.

Lemma atomicAddAndFetch_delta_witness :
  exists (v : Z) (mem' : memory),
    atomicAddAndFetch int64_t 24 (-1) ScriptedRest.memory0 = Some (v, mem') /\
    v = cast int64_t (1000 + uint32 (-1)) /\
    (uint32 (-1) mod 2 ^ bits int64_t = 0 ->
     v = 1000 /\ mem' = ScriptedRest.memory0) /\
    (fits int64_t (1000 + uint32 (-1)) ->
     v = 1000 + uint32 (-1) /\ 1000 <= v).
Proof.
  apply (atomicAddAndFetch_delta int64_t 24 (-1) 1000 ScriptedRest.memory0).
  - reflexivity.
  - reflexivity.
  - vm_compute. split; [discriminate | reflexivity].
Defined.

(** Passing -1 to the 64-bit instance adds 4294967295. *)
Example atomicAddAndFetch_minus_one :
  atomicAddAndFetch int64_t 24 (-1) ScriptedRest.memory0
  = Some (4294968295, <[24 := 4294968295]> ScriptedRest.memory0).
Proof. reflexivity. Qed.

Lemma cast_in_range T z : 0 < bits T -> fits T (cast T z).
Proof.
  intros Hb. unfold fits, cast. pose proof (pow2_half (bits T) Hb) as Hh.
  assert (0 < 2 ^ (bits T - 1)) by (apply Z.pow_pos_nonneg; lia).
  destruct (signed T).
  - pose proof (Z.mod_pos_bound (z + 2 ^ (bits T - 1)) (2 ^ bits T) ltac:(lia)).
    lia.
  - apply Z.mod_pos_bound. lia.
Qed.

(** X10.  [atomicSubAndFetch] returns 0 exactly when the object held the
    value [delta] converts to: a counter released by its last holder, and
    only then, reads zero; the value it returns and stores always fits the
    type. *)
Theorem atomicSubAndFetch_zero (T : int_type) (ptr delta old : Z) (mem : memory) :
  0 < bits T -> mem !! ptr = Some old -> fits T old ->
  exists (v : Z) (mem' : memory),
    atomicSubAndFetch T ptr delta mem = Some (v, mem') /\
    mem' !! ptr = Some v /\
    fits T v /\
    (v = 0 <-> old = cast T (uint32 delta)).
Proof.
  intros Hb Hm Hf. unfold atomicSubAndFetch. rewrite Hm. cbn zeta.
  eexists _, _. split; [reflexivity |].
  split; [apply lookup_insert_eq |].
  split; [apply cast_in_range, Hb |].
  set (x := cast T (uint32 delta)).
  assert (Hnz : 2 ^ bits T <> 0) by (apply Z.pow_nonzero; lia).
  split.
  - intros Hv.
    assert (Hmod : (old - x) mod 2 ^ bits T = 0).
    { rewrite <- cast_mod, Hv by exact Hb. apply Z.mod_0_l, Hnz. }
    rewrite <- (cast_fits T old Hb Hf).
    unfold x at 1. rewrite <- (cast_idem T (uint32 delta) Hb). fold x.
    apply cast_congr.
    replace old with ((old - x) + x) at 1 by lia.
    rewrite Zplus_mod, Hmod, Z.add_0_l, Z.mod_mod by exact Hnz. reflexivity.
  - intros ->. rewrite Z.sub_diag. apply cast_fits; [exact Hb |].
    unfold fits. pose proof (pow2_half (bits T) Hb).
    assert (0 < 2 ^ (bits T - 1)) by (apply Z.pow_pos_nonneg; lia).
    destruct (signed T); lia.
Qed.

Lemma atomicSubAndFetch_zero_witness :
  exists (v : Z) (mem' : memory),
    atomicSubAndFetch int64_t 24 1000 ScriptedRest.memory0 = Some (v, mem') /\
    mem' !! 24 = Some v /\
    fits int64_t v /\
    (v = 0 <-> 1000 = cast int64_t (uint32 1000)).
Proof.
  apply (atomicSubAndFetch_zero int64_t 24 1000 1000 ScriptedRest.memory0).
  - reflexivity.
  - reflexivity.
  - vm_compute. split; [discriminate | reflexivity].
Defined.

(** ** The time stamp counter *)

Lemma lor_halves a d :
  0 <= a < 2 ^ 32 -> 0 <= d -> Z.lor (Z.shiftl d 32) a = d * 2 ^ 32 + a.
Proof.
  intros Ha Hd.
  assert (Hland : Z.land (Z.shiftl d 32) a = 0).
  { apply Z.bits_inj'. intros n Hn. rewrite Z.land_spec, Z.bits_0.
    destruct (Z.lt_ge_cases n 32) as [Hlt | Hge].
    - rewrite Z.shiftl_spec_low by exact Hlt. reflexivity.
    - rewrite <- (Z.mod_small a (2 ^ 32)) by exact Ha.
      rewrite Z.mod_pow2_bits_high by lia. apply andb_false_r. }
  rewrite <- Z.lxor_lor by exact Hland.
  rewrite <- Z.add_nocarry_lxor by exact Hland.
  rewrite Z.shiftl_mul_pow2 by lia. reflexivity.
Qed.

Section Counter.
Context `{S : System}.

(** X1.  When [rdtsc] leaves the two 32-bit halves of the counter in EAX and
    EDX, the x86-64 body of [getTSC] returns the 64-bit counter
    [EDX * 2 ^ 32 + EAX], with no bit of either half lost, and that is the
    value the i386 body returns. *)
Theorem getTSC_halves (w w' : World) (eax edx : Z) :
  rdtsc w = ((eax, edx), w') ->
  0 <= eax < 2 ^ 32 -> 0 <= edx < 2 ^ 32 ->
  exists tsc : Z,
    getTSC amd64 w = (Return tsc, w') /\
    getTSC i386 w = (Return tsc, w') /\
    tsc = edx * 2 ^ 32 + eax /\
    0 <= tsc < 2 ^ 64 /\
    tsc / 2 ^ 32 = edx /\ tsc mod 2 ^ 32 = eax.
Proof.
  intros Hos Ha Hd. exists (edx * 2 ^ 32 + eax).
  assert (Hr : 0 <= edx * 2 ^ 32 + eax < 2 ^ 64) by lia.
  split; [| split; [| split; [reflexivity | split; [exact Hr | split]]]].
  - unfold getTSC. run_wrapper Hos. unfold uint64.
    rewrite (Z.mod_small edx), (Z.mod_small eax) by lia.
    assert (Hs : Z.shiftl edx 32 mod 2 ^ 64 = Z.shiftl edx 32).
    { rewrite Z.shiftl_mul_pow2 by lia. apply Z.mod_small. lia. }
    rewrite Hs, lor_halves by lia. reflexivity.
  - unfold getTSC. run_wrapper Hos. unfold uint64, uint32.
    rewrite (Z.mod_small edx), (Z.mod_small eax) by lia.
    rewrite Z.mod_small by exact Hr. reflexivity.
  - rewrite Z.div_add_l by lia. rewrite Z.div_small by lia. lia.
  - rewrite Z.add_comm, Z.mod_add by lia. apply Z.mod_small. exact Ha.
Qed.

(** X9.  Outside the try-lock and the timed wait, a wrapper of a [pthread]
    call returns normally exactly when the call returned 0: the plain wait,
    the notification, the lock, the unlock and the thread-local store never
    hide a failure, and the world they leave is the one the single call
    left. *)
Theorem returns_only_on_success (w w' : World) (cc : Z) :
  (forall signal m, pthread_cond_wait signal m w = (cc, w') ->
     (mutexSignalWait signal m w = (Return tt, w') <-> cc = 0) /\
     (cc <> 0 ->
      mutexSignalWait signal m w = (Throw (RunTimeException FILE_ 264 None), w'))) /\
  (forall signal, pthread_cond_signal signal w = (cc, w') ->
     (mutexSignalNotify signal w = (Return tt, w') <-> cc = 0) /\
     (cc <> 0 ->
      mutexSignalNotify signal w = (Throw (RunTimeException FILE_ 285 None), w'))) /\
  (forall m, pthread_mutex_lock m w = (cc, w') ->
     (mutexLock m w = (Return tt, w') <-> cc = 0)) /\
  (forall m, pthread_mutex_unlock m w = (cc, w') ->
     (mutexUnlock m w = (Return tt, w') <-> cc = 0)) /\
  (forall key value, pthread_setspecific key value w = (cc, w') ->
     (tlsSet key value w = (Return tt, w') <-> cc = 0) /\
     (cc <> 0 ->
      tlsSet key value w
      = (Throw (RunTimeException FILE_ 306 (Some (systemErrorToString cc))), w'))).
Proof.
  split; [| split; [| split; [| split]]]; intros;
    unfold mutexSignalWait, mutexSignalNotify, mutexLock, mutexUnlock, tlsSet;
    match goal with H : _ = (cc, w') |- _ => run_wrapper H end;
    destruct (Z.eqb_spec cc 0) as [H0 | H0]; cbn;
    repeat split; try congruence; intros; congruence.
Qed.


End Counter.

Lemma getTSC_halves_witness :
  exists tsc : Z,
    getTSC (S := ScriptedRest.linux_system) amd64 Scripted.spent
    = (Return tsc, Scripted.spent) /\
    getTSC (S := ScriptedRest.linux_system) i386 Scripted.spent
    = (Return tsc, Scripted.spent) /\
    tsc = 1 * 2 ^ 32 + 705032954 /\
    0 <= tsc < 2 ^ 64 /\
    tsc / 2 ^ 32 = 1 /\ tsc mod 2 ^ 32 = 705032954.
Proof.
  apply (getTSC_halves (S := ScriptedRest.linux_system)
           Scripted.spent Scripted.spent 705032954 1).
  - reflexivity.
  - lia.
  - lia.
Defined.

Lemma returns_only_on_success_witness :
  mutexSignalWait (P := Scripted.linux) 1%nat 0%nat (Scripted.returning 110)
  = (Throw (RunTimeException FILE_ 264 None), Scripted.spent).
Proof.
  refine (proj2 (proj1 (returns_only_on_success (S := ScriptedRest.linux_system)
            (Scripted.returning 110) Scripted.spent 110) 1%nat 0%nat _) _).
  - reflexivity.
  - discriminate.
Defined.


(** ** The deadline of the timed wait *)

Section Deadlines.
Context `{P : Platform}.

(** A well-formed [Time] of zero nanoseconds has zero seconds too. *)
Lemma zero_Time_components (z : Time) :
  well_formed_Time z -> nanoseconds z = 0 ->
  0 <= extractNanoseconds z < 1000000000 ->
  extractSeconds z = 0 /\ extractNanoseconds z = 0.
Proof. intros [_ Hs] Hz Hn. rewrite Hz in Hs. lia. Qed.

(** X3.  With nanoseconds components of either sign, as C++ remainder gives
    for negative times, the deadline still stands for the exact sum of the
    two inputs, but its [tv_nsec] takes the sign of the sum of the two
    components: a negative sum that is not a whole second leaves a negative
    [tv_nsec], a [timespec] that is not normalized. *)
Theorem tout_signed_components (pTimeOut currentEpochTime : Time) :
  well_formed_Time pTimeOut -> well_formed_Time currentEpochTime ->
  - 1000000000 < extractNanoseconds pTimeOut < 1000000000 ->
  - 1000000000 < extractNanoseconds currentEpochTime < 1000000000 ->
  let tout := mutexSignalWait_tout pTimeOut currentEpochTime in
  let carry := extractNanoseconds pTimeOut + extractNanoseconds currentEpochTime in
  timestamp tout = nanoseconds pTimeOut + nanoseconds currentEpochTime /\
  (0 <= carry -> normalized tout) /\
  (carry < 0 -> - 1000000000 < tv_nsec tout <= 0) /\
  (carry < 0 -> carry <> - 1000000000 -> ~ normalized tout).
Proof.
  intros [Hrp Hsp] [Hrc Hsc] Hp Hc tout carry. subst tout carry.
  unfold mutexSignalWait_tout, timestamp, normalized; cbn [tv_sec tv_nsec].
  set (a := extractNanoseconds pTimeOut) in *.
  set (b := extractNanoseconds currentEpochTime) in *.
  set (sp := extractSeconds pTimeOut) in *.
  set (sc := extractSeconds currentEpochTime) in *.
  unfold int64_range in *.
  rewrite (int64_id (a + b)) by (unfold int64_range; lia).
  pose proof (Z.quot_rem' (a + b) 1000000000) as Hqr.
  assert (Hsign : (0 <= a + b -> 0 <= Z.rem (a + b) 1000000000 < 1000000000) /\
                  (a + b <= 0 -> - 1000000000 < Z.rem (a + b) 1000000000 <= 0)).
  { split; intros Hs.
    - apply Z.rem_bound_pos; lia.
    - pose proof (Z.rem_bound_pos_neg (a + b) 1000000000 ltac:(lia) ltac:(lia)). lia. }
  set (q := Z.quot (a + b) 1000000000) in *.
  set (r := Z.rem (a + b) 1000000000) in *.
  assert (- 1 <= q <= 1) by lia.
  rewrite int64_id by (unfold int64_range; lia).
  repeat split; lia.
Qed.

(** X4.  With the same epoch, a timeout that is no shorter gives a deadline
    that is no earlier, in the order of [timespec] values (seconds first,
    then nanoseconds). *)
Theorem tout_monotone (shorter longer currentEpochTime : Time) :
  well_formed_Time shorter -> well_formed_Time longer ->
  well_formed_Time currentEpochTime ->
  0 <= extractNanoseconds shorter < 1000000000 ->
  0 <= extractNanoseconds longer < 1000000000 ->
  0 <= extractNanoseconds currentEpochTime < 1000000000 ->
  nanoseconds shorter <= nanoseconds longer ->
  timespec_le (mutexSignalWait_tout shorter currentEpochTime)
              (mutexSignalWait_tout longer currentEpochTime).
Proof.
  intros Hs Hl Hc Hns Hnl Hnc Hle.
  destruct (tout_sum shorter currentEpochTime Hs Hc Hns Hnc) as [E1 N1].
  destruct (tout_sum longer currentEpochTime Hl Hc Hnl Hnc) as [E2 N2].
  unfold timespec_le, timestamp, normalized in *. lia.
Qed.

(** X5.  A reading of the monotonic clock survives the trip through [Time]:
    [HighResolutionTime] turns the reading into a [Time], and the deadline of
    a zero timeout from that [Time] is the reading itself, seconds and
    nanoseconds. *)
Theorem tout_of_clock_reading (w w' : World) (t : timespec) (zero : Time) :
  clock_gettime CLOCK_MONOTONIC w = ((0, t), w') ->
  normalized t -> int64_range (timestamp t) ->
  well_formed_Time zero -> nanoseconds zero = 0 ->
  0 <= extractNanoseconds zero < 1000000000 ->
  well_formed_Time {| nanoseconds := timestamp t |} ->
  0 <= extractNanoseconds {| nanoseconds := timestamp t |} < 1000000000 ->
  HighResolutionTime w = (Return {| nanoseconds := timestamp t |}, w') /\
  mutexSignalWait_tout zero {| nanoseconds := timestamp t |} = t.
Proof.
  intros Hos Hn Hr Hz Hz0 Hzn HT HTn. split.
  - unfold HighResolutionTime. run_wrapper Hos. cbn.
    rewrite int64_clock_expr. fold (timestamp t).
    rewrite int64_id by exact Hr. reflexivity.
  - destruct (tout_sum zero _ Hz HT Hzn HTn) as [E N].
    rewrite Hz0 in E. cbn [nanoseconds] in E.
    destruct (mutexSignalWait_tout zero {| nanoseconds := timestamp t |})
      as [s n] eqn:Ht.
    destruct t as [ts tn].
    unfold timestamp, normalized in *. cbn [tv_sec tv_nsec] in *.
    f_equal; lia.
Qed.

End Deadlines.

Lemma tout_signed_components_witness :
  let tout := mutexSignalWait_tout (P := Scripted.linux)
                {| nanoseconds := - 1500000000 |}
                {| nanoseconds := 1700000000250000000 |} in
  let carry := - 500000000 + 250000000 in
  timestamp tout = - 1500000000 + 1700000000250000000 /\
  (0 <= carry -> normalized tout) /\
  (carry < 0 -> - 1000000000 < tv_nsec tout <= 0) /\
  (carry < 0 -> carry <> - 1000000000 -> ~ normalized tout).
Proof.
  apply (tout_signed_components (P := Scripted.linux)
           {| nanoseconds := - 1500000000 |}
           {| nanoseconds := 1700000000250000000 |}).
  - split; [unfold int64_range; cbn; lia | reflexivity].
  - split; [unfold int64_range; cbn; lia | reflexivity].
  - vm_compute. split; reflexivity.
  - vm_compute. split; reflexivity.
Defined.

(** A timeout of -1.5 s on an epoch with 0.25 s hands [pthread_cond_timedwait]
    a negative [tv_nsec]. *)
Example negative_timeout_deadline :
  mutexSignalWait_tout (P := Scripted.linux)
    {| nanoseconds := - 1500000000 |}
    {| nanoseconds := 1700000000250000000 |}
  = {| tv_sec := 1699999999; tv_nsec := - 250000000 |}.
Proof. reflexivity. Qed.

Lemma tout_monotone_witness :
  timespec_le
    (mutexSignalWait_tout (P := Scripted.linux)
       {| nanoseconds := 999999999 |} {| nanoseconds := 1700000000999999999 |})
    (mutexSignalWait_tout (P := Scripted.linux)
       {| nanoseconds := 1000000001 |} {| nanoseconds := 1700000000999999999 |}).
Proof.
  apply (tout_monotone (P := Scripted.linux)).
  - split; [unfold int64_range; cbn; lia | reflexivity].
  - split; [unfold int64_range; cbn; lia | reflexivity].
  - split; [unfold int64_range; cbn; lia | reflexivity].
  - vm_compute. split; [discriminate | reflexivity].
  - vm_compute. split; [discriminate | reflexivity].
  - vm_compute. split; [discriminate | reflexivity].
  - cbn. lia.
Defined.

Lemma tout_of_clock_reading_witness :
  HighResolutionTime (P := Scripted.linux) (Scripted.returning 0)
  = (Return {| nanoseconds := 5000000250 |}, Scripted.spent) /\
  mutexSignalWait_tout (P := Scripted.linux)
    {| nanoseconds := 0 |} {| nanoseconds := 5000000250 |}
  = {| tv_sec := 5; tv_nsec := 250 |}.
Proof.
  apply (tout_of_clock_reading (P := Scripted.linux) (Scripted.returning 0)
           Scripted.spent {| tv_sec := 5; tv_nsec := 250 |}
           {| nanoseconds := 0 |}).
  - reflexivity.
  - unfold normalized. cbn. lia.
  - unfold int64_range, timestamp. cbn. lia.
  - split; [unfold int64_range; cbn; lia | reflexivity].
  - reflexivity.
  - vm_compute. split; [discriminate | reflexivity].
  - split; [unfold int64_range, timestamp; cbn; lia | reflexivity].
  - vm_compute. split; [discriminate | reflexivity].
Defined.

End PlatformRestProps.
